(** * Trivia Time API: the request handlers of [src/index.ts]

    A shallow embedding of the Elysia application of [src/index.ts]: the
    error helper [sendError], the [onError] hook, and the handlers of
    [GET /], [GET /v1/categories] and [GET /v1/trivia], together with the
    parts of the JavaScript runtime they call ([Number], [Array.prototype]
    [find], [filter], [sort] and [slice], [Math.random], [console.log]).

    Arrays are objects: the imported [trivia] array and the arrays made by
    [filter] and [slice] live in a heap and are handled through references,
    so that the in-place [sort] is an update of the heap. *)

From Stdlib Require Import QArith.
From stdpp Require Import gmap strings list fin_maps.
From Stdlib Require Import ZArith Lia Permutation Ascii.

Set Warnings "-register-all".
Close Scope Q_scope.
Local Open Scope string_scope.
Local Open Scope Z_scope.

(** ** JavaScript values *)

Module JS.

(** A JavaScript number, as far as this program meets them: the integers
    (identifiers, limits, status codes) and [NaN].  Integers are exact in a
    double up to 2^53; the data and the parameters are taken in that range. *)
Inductive number :=
  | Num (z : Z)
  | NaN.

(** [a === b] on numbers: [NaN] is equal to nothing. *)
Definition strict_eq (a b : number) : bool :=
  match a, b with
  | Num x, Num y => x =? y
  | _, _ => false
  end.

(** [a < b] and [a > b]: false as soon as one side is [NaN]. *)
Definition lt (a b : number) : bool :=
  match a, b with
  | Num x, Num y => x <? y
  | _, _ => false
  end.

Definition gt (a b : number) : bool := lt b a.

(** What a query parameter holds after the destructuring defaults of the
    handler: the string of the query, or the number literal of a default. *)
Inductive value :=
  | VString (s : string)
  | VNumber (n : number).

Definition digit (c : ascii) : option Z :=
  let n := Z.of_N (N_of_ascii c) in
  if (48 <=? n) && (n <=? 57) then Some (n - 48) else None.

Fixpoint decimal (acc : Z) (s : string) : option Z :=
  match s with
  | EmptyString => Some acc
  | String c s' =>
      match digit c with
      | Some d => decimal (10 * acc + d) s'
      | None => None
      end
  end.

(** [Number(v)].  On a string of decimal digits it is the number they
    write, and [Number("")] is 0.  The value is the exact one: it is the
    one of the code as long as it is at most 2^53, above which the code
    rounds to the nearest double (and to [Infinity] in the end); what is
    proved of a parameter beyond its comparison with 1 and 50 or with an id
    found in the store is proved of values up to 2^53.  The route's query
    schema admits only strings that match [^[0-9]+$]; the other numeric
    literals of StringToNumber (signs, fractions, exponents, radix prefixes,
    white space around) are outside it and are not interpreted: they are
    [NaN] here, like every string that is no number. *)
Definition Number (v : value) : number :=
  match v with
  | VNumber n => n
  | VString s =>
      match decimal 0 s with
      | Some z => Num z
      | None => NaN
      end
  end.

(** The argument of [JSON.stringify], kept as a tree. *)
Inductive JSON :=
  | JNumber (z : Z)
  | JString (s : string)
  | JArray (l : list JSON)
  | JObject (fields : list (string * JSON)).

(** The body handed to [new Response(...)]: a plain string, or the text
    that [JSON.stringify] makes of a value. *)
Inductive Body :=
  | Text (s : string)
  | JSON_stringify (v : JSON).

Record Response := {
  body : Body;
  status : Z;
  headers : list (string * string);
}.

End JS.

Import JS.

(** ** The bundled data *)

(** Modelled from the spec: [src/data/categories.json] is not part of the
    sources; a record of it has the fields [id], [image] and [name] of the
    spec's data model, in the order of the route's response schema. *)
Record Category := {
  cat_id : Z;
  cat_image : string;
  cat_name : string;
}.

(** Modelled from the spec: an entry of [options] in
    [src/data/trivia.json]. *)
Record TriviaOption := {
  opt_id : Z;
  opt_text : string;
}.

(** Modelled from the spec: [src/data/trivia.json] is not part of the
    sources; a record of it has the fields of the spec's data model, in the
    order of the route's response schema.  [difficulty] is the string of the
    file, compared as a string by the handler. *)
Record TriviaQuestion := {
  t_id : Z;
  t_question : string;
  t_options : list TriviaOption;
  t_answer : Z;
  t_category : Z;
  t_difficulty : string;
}.

Definition Category_json (c : Category) : JSON :=
  JObject [("id", JNumber (cat_id c));
           ("image", JString (cat_image c));
           ("name", JString (cat_name c))].

Definition TriviaOption_json (o : TriviaOption) : JSON :=
  JObject [("id", JNumber (opt_id o)); ("text", JString (opt_text o))].

Definition TriviaQuestion_json (t : TriviaQuestion) : JSON :=
  JObject [("id", JNumber (t_id t));
           ("question", JString (t_question t));
           ("options", JArray (map TriviaOption_json (t_options t)));
           ("answer", JNumber (t_answer t));
           ("category", JNumber (t_category t));
           ("difficulty", JString (t_difficulty t))].

(** ** Errors *)

Definition BASE_URL : string := "https://trivia-time-api.onrender.com".

(** [sendError(error, status = 500, code)]: [status] is [None] when the
    caller passes [undefined], and the default applies. *)
Definition sendError (error : string) (status : option Z) (code : string)
  : Response :=
  {| body := JSON_stringify
               (JObject [("error_type", JString code);
                         ("error", JString error);
                         ("docs", JString (String.append BASE_URL "/docs"))]);
     status := default 500 status;
     headers := [("Content-Type", "application/json")] |}.

(** The error codes the framework hands to the [onError] hook: the keys of
    the [statusCodes] table. *)
Inductive ErrorCode :=
  | UNKNOWN
  | NOT_FOUND
  | PARSE
  | VALIDATION
  | INTERNAL_SERVER_ERROR.

Definition ErrorCode_string (code : ErrorCode) : string :=
  match code with
  | UNKNOWN => "UNKNOWN"
  | NOT_FOUND => "NOT_FOUND"
  | PARSE => "PARSE"
  | VALIDATION => "VALIDATION"
  | INTERNAL_SERVER_ERROR => "INTERNAL_SERVER_ERROR"
  end.

(** [statusCodes[code]]. *)
Definition statusCodes (code : ErrorCode) : option Z :=
  match code with
  | UNKNOWN => Some 500
  | NOT_FOUND => Some 404
  | PARSE => Some 400
  | VALIDATION => Some 400
  | INTERNAL_SERVER_ERROR => Some 500
  end.

(** The [onError] hook; [message] is [error.message]. *)
Definition onError (code : ErrorCode) (message : string) : Response :=
  sendError message (statusCodes code) (ErrorCode_string code).

(** ** The state of the process *)

Definition loc := nat.

(** One line of [console.log({ category, difficulty, limit })]. *)
Record LogRecord := {
  log_category : string;
  log_difficulty : string;
  log_limit : value;
}.

(** The module bindings [categories] and [trivia], the array objects, the
    outcomes of [Math.random] in the order of the calls with the number of
    calls made so far, and what was written to the console.  [trivia] is a
    reference to an array object of the heap, as the handler calls array
    methods on it and on the arrays they return; [categories] is only
    searched and serialised, and is kept by value. *)
Record World := {
  categories : list Category;
  trivia : loc;
  heap : gmap loc (list TriviaQuestion);
  entropy : nat -> Q;
  drawn : nat;
  console : list LogRecord;
}.

Definition set_heap (h : gmap loc (list TriviaQuestion)) (w : World) : World :=
  {| categories := categories w; trivia := trivia w; heap := h;
     entropy := entropy w; drawn := drawn w; console := console w |}.

Definition set_drawn (n : nat) (w : World) : World :=
  {| categories := categories w; trivia := trivia w; heap := heap w;
     entropy := entropy w; drawn := n; console := console w |}.

Definition set_console (c : list LogRecord) (w : World) : World :=
  {| categories := categories w; trivia := trivia w; heap := heap w;
     entropy := entropy w; drawn := drawn w; console := c |}.

(** Computations over the state of the process. *)
Definition M (A : Type) : Type := World -> A * World.

Definition ret {A} (a : A) : M A := fun w => (a, w).

Definition bind {A B} (m : M A) (k : A -> M B) : M B :=
  fun w => let (a, w') := m w in k a w'.

Notation "x <-- m ;; k" := (bind m (fun x => k))
  (at level 20, m at level 99, k at level 200, only parsing).
Notation "m ;;; k" := (bind m (fun _ => k))
  (at level 20, k at level 200, only parsing).

Definition get_categories : M (list Category) := fun w => (categories w, w).

Definition get_trivia : M loc := fun w => (trivia w, w).

Definition console_log (r : LogRecord) : M unit :=
  fun w => (tt, set_console (console w ++ [r]) w).

(** [Math.random()]: the next outcome. *)
Definition Math_random : M Q :=
  fun w => (entropy w (drawn w), set_drawn (S (drawn w)) w).

(** The elements of the array object at [a]. *)
Definition elements_of (a : loc) : M (list TriviaQuestion) :=
  fun w => (default [] (heap w !! a), w).

(** A new array object holding [l]. *)
Definition new_array (l : list TriviaQuestion) : M loc :=
  fun w => let a := fresh (dom (heap w)) in (a, set_heap (<[a := l]> (heap w)) w).

(** Overwrites the elements of the array object at [a]. *)
Definition store_elements (a : loc) (l : list TriviaQuestion) : M unit :=
  fun w => (tt, set_heap (<[a := l]> (heap w)) w).

(** ** Array methods *)

(** [array.find(p)] on the elements: the first one that satisfies [p], or
    [undefined]. *)
Definition Array_find {A} (p : A -> bool) (l : list A) : option A :=
  List.find p l.

(** [!x] for [x] an object or [undefined]: every object is truthy. *)
Definition not_truthy {A} (x : option A) : bool :=
  match x with
  | Some _ => false
  | None => true
  end.

(** [array.filter(p)]: a new array object, the receiver is only read. *)
Definition Array_filter (a : loc) (p : TriviaQuestion -> bool) : M loc :=
  l <-- elements_of a ;;
  new_array (List.filter p l).

(** The sign test of the sort on what the comparison function returns. *)
Definition negative (c : Q) : bool :=
  match Qcompare c 0 with
  | Lt => true
  | _ => false
  end.

Section Sort.
Context {A : Type}.
Variable comparefn : A -> A -> M Q.

(** Merges two adjacent runs: the head of the right run is taken when the
    comparison function, called on it and on the head of the left run,
    returns a negative number. *)
Fixpoint merge (left : list A) : list A -> M (list A) :=
  fix merge_right (right : list A) : M (list A) :=
    match left, right with
    | [], _ => ret right
    | _, [] => ret left
    | x :: left', y :: right' =>
        c <-- comparefn y x ;;
        if negative c
        then rest <-- merge_right right' ;; ret (y :: rest)
        else rest <-- merge left' right ;; ret (x :: rest)
    end.

(** One pass: the runs are merged two by two, an odd last run is kept. *)
Fixpoint merge_pairs (runs : list (list A)) : M (list (list A)) :=
  match runs with
  | r1 :: r2 :: runs' =>
      r <-- merge r1 r2 ;;
      rs <-- merge_pairs runs' ;;
      ret (r :: rs)
  | _ => ret runs
  end.

(** Passes until one run is left; [None] when [fuel] passes were not
    enough. *)
Fixpoint merge_passes (fuel : nat) (runs : list (list A))
  : M (option (list A)) :=
  match runs with
  | [] => ret (Some [])
  | [r] => ret (Some r)
  | _ =>
      match fuel with
      | O => ret None
      | S fuel' =>
          runs' <-- merge_pairs runs ;;
          merge_passes fuel' runs'
      end
  end.

(** The sort of the engine on the elements of an array, modelled as a
    bottom-up merge sort (JavaScriptCore, the engine of the Bun runtime that
    the application names, sorts by merging): runs of width 1, 2, 4, ... are
    merged until one is left.  The number of elements is enough fuel
    ([sort_elements_fuel]). *)
Definition sort_elements (l : list A) : M (list A) :=
  r <-- merge_passes (length l) (map (fun x => [x]) l) ;;
  ret (default l r).
End Sort.

(** [array.sort(comparefn)]: sorts the array object in place and returns
    the same reference. *)
Definition Array_sort (a : loc)
    (comparefn : TriviaQuestion -> TriviaQuestion -> M Q) : M loc :=
  l <-- elements_of a ;;
  l' <-- sort_elements comparefn l ;;
  store_elements a l' ;;;
  ret a.

(** The final index of [array.slice(0, end)] on [len] elements: [NaN]
    counts as 0, a negative [end] is taken from the end of the array. *)
Definition slice_final (len : nat) (end_ : number) : nat :=
  match end_ with
  | NaN => O
  | Num z =>
      if z <? 0 then Z.to_nat (Z.max (Z.of_nat len + z) 0)
      else Z.to_nat (Z.min z (Z.of_nat len))
  end.

(** [array.slice(0, end)]: a new array object. *)
Definition Array_slice0 (a : loc) (end_ : number) : M loc :=
  l <-- elements_of a ;;
  new_array (take (slice_final (length l) end_) l).

(** ** The routes *)

(** The [query] object of a [/v1/trivia] request as the handler receives
    it: [category] is required, [difficulty] and [limit] are optional. *)
Record Query := {
  category : string;
  difficulty : option string;
  limit : option string;
}.

Definition JSON_headers : list (string * string) :=
  [("Content-Type", "application/json")].

(** [GET /]. *)
Definition root_handler : M Response :=
  ret {| body := Text "Welcome to The Trivia Time API!✨🦄";
         status := 200; headers := [] |}.

(** [GET /v1/categories]; the earlier version of the file, which has this
    route only, has the same handler. *)
Definition categories_handler : M Response :=
  cs <-- get_categories ;;
  ret {| body := JSON_stringify (JArray (map Category_json cs));
         status := 200; headers := JSON_headers |}.

(** The values of [difficulty] and [limit] after the defaults of
    [const { category, difficulty = "any", limit = 10 } = query]. *)
Definition difficulty_of (query : Query) : string :=
  default "any" (difficulty query).

Definition limit_of (query : Query) : value :=
  match limit query with
  | Some s => VString s
  | None => VNumber (Num 10)
  end.

(** The test of [trivia.filter]. *)
Definition matches (category : string) (difficulty : string)
    (t : TriviaQuestion) : bool :=
  strict_eq (Num (t_category t)) (Number (VString category))
  && (String.eqb difficulty "any" || String.eqb (t_difficulty t) difficulty).

(** [() => Math.random() - 0.5]. *)
Definition random_order (_ _ : TriviaQuestion) : M Q :=
  r <-- Math_random ;;
  ret (r - (1 # 2))%Q.

(** [GET /v1/trivia]. *)
Definition trivia_handler (query : Query) : M Response :=
  let category := category query in
  let difficulty := difficulty_of query in
  let limit := limit_of query in
  console_log {| log_category := category; log_difficulty := difficulty;
                 log_limit := limit |} ;;;
  cs <-- get_categories ;;
  if not_truthy
       (Array_find (fun c => strict_eq (Num (cat_id c))
                                       (Number (VString category))) cs)
  then ret (sendError "Invalid value for parameter 'category'."
                      (Some 404) "NOT_FOUND")
  else if lt (Number limit) (Num 1) || gt (Number limit) (Num 50)
  then ret (sendError
              "Invalid value for parameter 'limit'. Must be between 1 and 50."
              (Some 400) "VALIDATION")
  else
    all <-- get_trivia ;;
    filteredTrivia <-- Array_filter all (matches category difficulty) ;;
    shuffledTrivia <-- Array_sort filteredTrivia random_order ;;
    limitedTrivia <-- Array_slice0 shuffledTrivia (Number limit) ;;
    ts <-- elements_of limitedTrivia ;;
    ret {| body := JSON_stringify (JArray (map TriviaQuestion_json ts));
           status := 200; headers := JSON_headers |}.

(** What the application is asked to answer: a request routed to one of the
    three handlers (for [/v1/trivia], with the query object it is given), or
    an error raised by the framework while it handles a request (no route,
    a query refused by the schema, a fault), which goes to the [onError]
    hook with its code and message. *)
Inductive Incoming :=
  | GetRoot
  | GetCategories
  | GetTrivia (query : Query)
  | Raised (code : ErrorCode) (message : string).

Definition serve (i : Incoming) : M Response :=
  match i with
  | GetRoot => root_handler
  | GetCategories => categories_handler
  | GetTrivia query => trivia_handler query
  | Raised code message => ret (onError code message)
  end.

(** The query schema of the [/v1/trivia] route: [category] and [limit]
    match [^[0-9]+$], [difficulty] is one of the four names. *)
Definition all_digits (s : string) : bool :=
  match s with
  | EmptyString => false
  | _ => bool_decide (is_Some (decimal 0 s))
  end.

Definition is_difficulty (s : string) : bool :=
  String.eqb s "easy" || String.eqb s "medium" || String.eqb s "hard"
  || String.eqb s "any".

Definition query_schema (query : Query) : bool :=
  all_digits (category query)
  && from_option is_difficulty true (difficulty query)
  && from_option all_digits true (limit query).

(** ** What the properties speak of *)

(** A computation that only consumes outcomes of [Math.random]: it changes
    nothing of the state but the number of calls, and what it returns and
    how many outcomes it consumes depend on the outcomes only. *)
Definition random_only {A} (m : M A) : Prop :=
  (forall w, snd (m w) = set_drawn (drawn (snd (m w))) w) /\
  (forall w1 w2, entropy w1 = entropy w2 -> drawn w1 = drawn w2 ->
     fst (m w1) = fst (m w2) /\ drawn (snd (m w1)) = drawn (snd (m w2))).

(** The questions of the data store that pass the filter of a query. *)
Definition matching_questions (query : Query) (w : World)
  : list TriviaQuestion :=
  List.filter (matches (category query) (difficulty_of query))
              (default [] (heap w !! trivia w)).

(** The test of [categories.find] in the handler. *)
Definition has_id (query : Query) (c : Category) : bool :=
  strict_eq (Num (cat_id c)) (Number (VString (category query))).

Definition limit_out_of_range (query : Query) : bool :=
  lt (Number (limit_of query)) (Num 1) || gt (Number (limit_of query)) (Num 50).

Definition logged (query : Query) (w : World) : World :=
  set_console
    (console w ++ [{| log_category := category query;
                      log_difficulty := difficulty_of query;
                      log_limit := limit_of query |}]) w.

(** The order in which the sort of a successful request leaves the
    questions that pass the filter, and what [slice] keeps of them. *)
Definition shuffled_questions (query : Query) (w : World)
  : list TriviaQuestion :=
  fst (sort_elements random_order (matching_questions query w) w).

Definition limited_questions (query : Query) (w : World)
  : list TriviaQuestion :=
  take (slice_final (length (shuffled_questions query w))
                    (Number (limit_of query)))
       (shuffled_questions query w).

Definition success_response (ts : list TriviaQuestion) : Response :=
  {| body := JSON_stringify (JArray (map TriviaQuestion_json ts));
     status := 200; headers := JSON_headers |}.

(** The heap after a successful request: the array of [filter], sorted in
    place, and the array of [slice]. *)
Definition success_heap (query : Query) (w : World)
  : gmap loc (list TriviaQuestion) :=
  let filteredTrivia := fresh (dom (heap w)) in
  let h := <[filteredTrivia := shuffled_questions query w]>
             (<[filteredTrivia := matching_questions query w]> (heap w)) in
  <[fresh (dom h) := limited_questions query w]> h.

Definition success_world (query : Query) (w : World) : World :=
  {| categories := categories w;
     trivia := trivia w;
     heap := success_heap query w;
     entropy := entropy w;
     drawn := drawn (snd (sort_elements random_order
                            (matching_questions query w) w));
     console := console (logged query w) |}.

(** The last steps of the handler: filter, shuffle, limit and answer. *)
Definition trivia_pipeline (query : Query) : M Response :=
  all <-- get_trivia ;;
  filteredTrivia <-- Array_filter all
                       (matches (category query) (difficulty_of query)) ;;
  shuffledTrivia <-- Array_sort filteredTrivia random_order ;;
  limitedTrivia <-- Array_slice0 shuffledTrivia (Number (limit_of query)) ;;
  ts <-- elements_of limitedTrivia ;;
  ret (success_response ts).

(** ** The application over its lifetime *)

(** The application answers what comes in ([.listen(3000)]) one after the
    other, each on the state that the ones before have left: the handlers
    are synchronous and run to their end. *)
Fixpoint serve_all (incoming : list Incoming) : M (list Response) :=
  match incoming with
  | [] => ret []
  | i :: incoming' =>
      r <-- serve i ;;
      rs <-- serve_all incoming' ;;
      ret (r :: rs)
  end.

(** What stays of a state [w] in a later state [w']: the bindings, the
    outcomes of [Math.random], and every array object that [w] has. *)
Definition store_kept (w w' : World) : Prop :=
  categories w' = categories w /\
  trivia w' = trivia w /\
  entropy w' = entropy w /\
  (forall a, is_Some (heap w !! a) -> heap w' !! a = heap w !! a).

(** The category with id [n] is one of the data store. *)
Definition known_category (w : World) (n : Z) : Prop :=
  exists c, In c (categories w) /\ cat_id c = n.

(** The line that a [/v1/trivia] request leaves on the console. *)
Definition log_line (query : Query) : LogRecord :=
  {| log_category := category query;
     log_difficulty := difficulty_of query;
     log_limit := limit_of query |}.

(** ** Sample data *)

Definition sample_question (i c : Z) (d : string) : TriviaQuestion :=
  {| t_id := i; t_question := "Which one?";
     t_options := [{| opt_id := 1; opt_text := "This" |};
                   {| opt_id := 2; opt_text := "That" |}];
     t_answer := 2; t_category := c; t_difficulty := d |}.

Definition sample_world : World :=
  {| categories := [{| cat_id := 1; cat_image := "";
                       cat_name := "General Knowledge" |};
                    {| cat_id := 2; cat_image := ""; cat_name := "Science" |};
                    {| cat_id := 7; cat_image := ""; cat_name := "Empty" |}];
     trivia := 0%nat;
     heap := {[ 0%nat := [sample_question 1 1 "easy";
                          sample_question 2 1 "easy";
                          sample_question 3 2 "hard";
                          sample_question 4 1 "hard";
                          sample_question 5 1 "easy"] ]};
     entropy := fun k => if Nat.even k then (1 # 4)%Q else (3 # 4)%Q;
     drawn := 0%nat;
     console := [] |}.

Definition sample_query (c : string) (d l : option string) : Query :=
  {| category := c; difficulty := d; limit := l |}.

(** The keys of a JSON object, in order. *)
Definition JSON_keys (j : JSON) : list string :=
  match j with
  | JObject fields => map fst fields
  | _ => []
  end.

(** * Properties *)

(** ** The runtime on examples *)

Example Number_digits : Number (VString "0042") = Num 42.
Proof. reflexivity. Qed.

Example Number_default_limit : Number (VNumber (Num 10)) = Num 10.
Proof. reflexivity. Qed.

Example Number_not_digits : Number (VString "abc") = NaN.
Proof. reflexivity. Qed.

Example NaN_comparisons :
  lt NaN (Num 1) = false /\ gt NaN (Num 50) = false /\ strict_eq NaN NaN = false.
Proof. repeat split. Qed.

Example slice_final_short : slice_final 3 (Num 10) = 3%nat.
Proof. reflexivity. Qed.

Example slice_final_long : slice_final 5 (Num 2) = 2%nat.
Proof. reflexivity. Qed.

Example sort_sample :
  map t_id (fst (sort_elements random_order
                   [sample_question 1 1 "easy"; sample_question 2 1 "easy";
                    sample_question 5 1 "easy"] sample_world)) = [2; 5; 1].
Proof. vm_compute. reflexivity. Qed.

Example trivia_sample_status :
  status (fst (serve (GetTrivia (sample_query "1" (Some "easy") (Some "2")))
                     sample_world)) = 200.
Proof. vm_compute. reflexivity. Qed.

Example trivia_sample_missing_category :
  status (fst (serve (GetTrivia (sample_query "99999" None None))
                     sample_world)) = 404.
Proof. vm_compute. reflexivity. Qed.

(** ** Running computations *)

Lemma bind_run {A B} (m : M A) (k : A -> M B) (w : World) :
  bind m k w = k (fst (m w)) (snd (m w)).
Proof. unfold bind. destruct (m w); reflexivity. Qed.

Lemma set_drawn_twice (n n' : nat) (w : World) :
  set_drawn n (set_drawn n' w) = set_drawn n w.
Proof. reflexivity. Qed.

Lemma random_only_ret {A} (a : A) : random_only (ret a).
Proof. split; [intros [] | intros w1 w2 _ Hd]; simpl; auto. Qed.

Lemma random_only_bind {A B} (m : M A) (k : A -> M B) :
  random_only m -> (forall a, random_only (k a)) -> random_only (bind m k).
Proof.
  intros [Hm Hm'] Hk. split.
  - intros w. rewrite bind_run.
    destruct (Hk (fst (m w))) as [Hf _].
    rewrite Hf at 1. rewrite (Hm w) at 2. reflexivity.
  - intros w1 w2 He Hd. rewrite !bind_run.
    destruct (Hm' w1 w2 He Hd) as [Ha Hd'].
    rewrite Ha. destruct (Hk (fst (m w2))) as [_ Hn].
    apply Hn; [| exact Hd'].
    rewrite (Hm w1), (Hm w2). simpl. exact He.
Qed.

Lemma random_only_Math_random : random_only Math_random.
Proof.
  split; [reflexivity |].
  intros w1 w2 He Hd. simpl. rewrite He, Hd. auto.
Qed.

Lemma random_only_random_order (x y : TriviaQuestion) :
  random_only (random_order x y).
Proof.
  apply random_only_bind; [apply random_only_Math_random |].
  intros r. apply random_only_ret.
Qed.

(** ** The sort *)

Section SortFacts.
Context {A : Type}.
Variable comparefn : A -> A -> M Q.

Lemma merge_nil_l (right : list A) : merge comparefn [] right = ret right.
Proof. destruct right; reflexivity. Qed.

Lemma merge_nil_r (left : list A) : merge comparefn left [] = ret left.
Proof. destruct left; reflexivity. Qed.

Lemma merge_cons (x y : A) (left right : list A) :
  merge comparefn (x :: left) (y :: right) =
  bind (comparefn y x) (fun c =>
    if negative c
    then bind (merge comparefn (x :: left) right) (fun rest => ret (y :: rest))
    else bind (merge comparefn left (y :: right)) (fun rest => ret (x :: rest))).
Proof. reflexivity. Qed.

(** Whatever the comparison function answers, a merge only interleaves
    its two runs. *)
Lemma merge_perm (left right : list A) (w : World) :
  Permutation (fst (merge comparefn left right w)) (left ++ right).
Proof.
  revert right w. induction left as [| x left IHl]; intros right.
  - intros w. rewrite merge_nil_l. reflexivity.
  - induction right as [| y right IHr]; intros w.
    + rewrite merge_nil_r, app_nil_r. reflexivity.
    + rewrite merge_cons, bind_run.
      destruct (negative _); rewrite bind_run; simpl.
      * rewrite IHr. apply (Permutation_middle (x :: left) right y).
      * rewrite IHl. reflexivity.
Qed.

Lemma merge_pairs_perm (runs : list (list A)) :
  (forall w, Permutation (concat (fst (merge_pairs comparefn runs w)))
                         (concat runs)) /\
  (forall r w, Permutation
                 (concat (fst (merge_pairs comparefn (r :: runs) w)))
                 (concat (r :: runs))).
Proof.
  induction runs as [| r2 runs [IH1 IH2]]; split; intros; try reflexivity.
  - apply IH2.
  - simpl merge_pairs. rewrite !bind_run. simpl.
    rewrite merge_perm, IH1, app_assoc. reflexivity.
Qed.

Lemma merge_pairs_length (runs : list (list A)) :
  (forall w, (2 * length (fst (merge_pairs comparefn runs w))
              <= S (length runs))%nat) /\
  (forall r w, (2 * length (fst (merge_pairs comparefn (r :: runs) w))
                <= S (S (length runs)))%nat).
Proof.
  induction runs as [| r2 runs [IH1 IH2]]; split; intros; simpl; try lia.
  - apply IH2.
  - rewrite !bind_run. simpl. specialize (IH1 (snd (merge comparefn r r2 w))).
    lia.
Qed.

(** As many passes as there are runs, less one, always suffice, and what
    comes out is a rearrangement of the elements of the runs. *)
Lemma merge_passes_perm (fuel : nat) (runs : list (list A)) (w : World) :
  (length runs <= S fuel)%nat ->
  exists l, fst (merge_passes comparefn fuel runs w) = Some l /\
            Permutation l (concat runs).
Proof.
  revert runs w. induction fuel as [| fuel IH]; intros runs w Hlen.
  - destruct runs as [| r [| r2 runs]]; simpl in *; try lia.
    + exists []. auto.
    + exists r. rewrite app_nil_r. auto.
  - destruct runs as [| r [| r2 runs]].
    + exists []. auto.
    + exists r. simpl. rewrite app_nil_r. auto.
    + change (merge_passes comparefn (S fuel) (r :: r2 :: runs))
        with (bind (merge_pairs comparefn (r :: r2 :: runs))
                   (merge_passes comparefn fuel)).
      rewrite bind_run.
      destruct (merge_pairs_length (r2 :: runs)) as [_ Hl].
      destruct (merge_pairs_perm (r2 :: runs)) as [_ Hp].
      specialize (Hl r w). specialize (Hp r w).
      destruct (IH (fst (merge_pairs comparefn (r :: r2 :: runs) w))
                   (snd (merge_pairs comparefn (r :: r2 :: runs) w)))
        as (l & Hsome & Hperm).
      { simpl length in *. lia. }
      exists l. split; [exact Hsome |]. rewrite Hperm. exact Hp.
Qed.

Lemma concat_singletons (l : list A) : concat (map (fun x => [x]) l) = l.
Proof. induction l as [| x l IH]; simpl; congruence. Qed.

(** The fuel of [sort_elements] never runs out. *)
Lemma sort_elements_fuel (l : list A) (w : World) :
  is_Some (fst (merge_passes comparefn (length l) (map (fun x => [x]) l) w)).
Proof.
  destruct (merge_passes_perm (length l) (map (fun x => [x]) l) w)
    as (l' & H & _).
  - rewrite length_map. lia.
  - rewrite H. eauto.
Qed.

(** The sort returns a rearrangement of the elements it is given. *)
Lemma sort_elements_perm (l : list A) (w : World) :
  Permutation (fst (sort_elements comparefn l w)) l.
Proof.
  unfold sort_elements. rewrite bind_run. simpl.
  destruct (merge_passes_perm (length l) (map (fun x => [x]) l) w)
    as (l' & H & Hp).
  - rewrite length_map. lia.
  - rewrite H. simpl. rewrite Hp, concat_singletons. reflexivity.
Qed.

Hypothesis comparefn_random : forall x y, random_only (comparefn x y).

Lemma merge_random_only (left right : list A) :
  random_only (merge comparefn left right).
Proof.
  revert right. induction left as [| x left IHl]; intros right.
  - rewrite merge_nil_l. apply random_only_ret.
  - induction right as [| y right IHr].
    + rewrite merge_nil_r. apply random_only_ret.
    + rewrite merge_cons. apply random_only_bind; [apply comparefn_random |].
      intros c. destruct (negative c);
        (apply random_only_bind; [auto | intros; apply random_only_ret]).
Qed.

Lemma merge_pairs_random_only (runs : list (list A)) :
  random_only (merge_pairs comparefn runs) /\
  (forall r, random_only (merge_pairs comparefn (r :: runs))).
Proof.
  induction runs as [| r2 runs [IH1 IH2]]; split; intros;
    try apply random_only_ret; auto.
  simpl. apply random_only_bind; [apply merge_random_only |].
  intros m. apply random_only_bind; [exact IH1 |].
  intros rs. apply random_only_ret.
Qed.

Lemma merge_passes_random_only (fuel : nat) (runs : list (list A)) :
  random_only (merge_passes comparefn fuel runs).
Proof.
  revert runs. induction fuel as [| fuel IH]; intros runs;
    destruct runs as [| r [| r2 runs]]; try apply random_only_ret.
  change (merge_passes comparefn (S fuel) (r :: r2 :: runs))
    with (bind (merge_pairs comparefn (r :: r2 :: runs))
               (merge_passes comparefn fuel)).
  apply random_only_bind; [| exact IH].
  apply merge_pairs_random_only.
Qed.

Lemma sort_elements_random_only (l : list A) :
  random_only (sort_elements comparefn l).
Proof.
  apply random_only_bind; [apply merge_passes_random_only |].
  intros r. apply random_only_ret.
Qed.
End SortFacts.

(** ** The [/v1/trivia] handler, case by case *)

Lemma trivia_handler_cases (query : Query) (w : World) :
  trivia_handler query w =
  if not_truthy (Array_find (has_id query) (categories w))
  then (sendError "Invalid value for parameter 'category'."
                  (Some 404) "NOT_FOUND", logged query w)
  else if limit_out_of_range query
  then (sendError
          "Invalid value for parameter 'limit'. Must be between 1 and 50."
          (Some 400) "VALIDATION", logged query w)
  else trivia_pipeline query (logged query w).
Proof.
  unfold trivia_handler, limit_out_of_range.
  rewrite bind_run. simpl. rewrite bind_run. simpl.
  destruct (not_truthy _); [reflexivity |].
  destruct (_ || _); reflexivity.
Qed.

Lemma Array_filter_run (a : loc) (p : TriviaQuestion -> bool) (w : World) :
  Array_filter a p w =
  (fresh (dom (heap w)),
   set_heap (<[fresh (dom (heap w)) := List.filter p (default [] (heap w !! a))]>
               (heap w)) w).
Proof. reflexivity. Qed.

Lemma Array_sort_run (a : loc) comparefn (w : World) :
  Array_sort a comparefn w =
  (a, let sw := sort_elements comparefn (default [] (heap w !! a)) w in
      set_heap (<[a := fst sw]> (heap (snd sw))) (snd sw)).
Proof.
  unfold Array_sort. rewrite !bind_run. reflexivity.
Qed.

Lemma Array_slice0_run (a : loc) (end_ : number) (w : World) :
  Array_slice0 a end_ w =
  (let l := default [] (heap w !! a) in
   (fresh (dom (heap w)),
    set_heap (<[fresh (dom (heap w)) := take (slice_final (length l) end_) l]>
                (heap w)) w)).
Proof. reflexivity. Qed.

(** The sort of the handler sees the world only through [Math.random]. *)
Lemma shuffle_run (l : list TriviaQuestion) (w w0 : World) :
  entropy w = entropy w0 -> drawn w = drawn w0 ->
  sort_elements random_order l w =
  (fst (sort_elements random_order l w0),
   set_drawn (drawn (snd (sort_elements random_order l w0))) w).
Proof.
  intros He Hd.
  destruct (sort_elements_random_only random_order
              random_only_random_order l) as [Hframe Hsame].
  destruct (Hsame w w0 He Hd) as [Hf Hn].
  rewrite <- Hf, <- Hn, <- Hframe. apply surjective_pairing.
Qed.

Lemma trivia_pipeline_run (query : Query) (w : World) :
  trivia_pipeline query (logged query w) =
  (success_response (limited_questions query w), success_world query w).
Proof.
  unfold trivia_pipeline.
  rewrite bind_run. simpl get_trivia. cbn [fst snd].
  rewrite bind_run, Array_filter_run. cbn [fst snd].
  rewrite bind_run, Array_sort_run. cbn [fst snd]. cbv zeta.
  cbn [heap set_heap logged set_console]. rewrite lookup_insert_eq.
  cbn [default from_option]. fold (matching_questions query w).
  rewrite (shuffle_run _ _ w) by reflexivity.
  cbn [fst snd heap set_drawn set_heap].
  fold (shuffled_questions query w).
  rewrite bind_run, Array_slice0_run. cbn [fst snd heap set_heap]. cbv zeta.
  rewrite lookup_insert_eq. cbn [default from_option].
  fold (limited_questions query w).
  rewrite bind_run. unfold elements_of. cbn [fst snd heap set_heap].
  rewrite lookup_insert_eq. reflexivity.
Qed.

Lemma trivia_handler_not_found (query : Query) (w : World) :
  Array_find (has_id query) (categories w) = None ->
  trivia_handler query w =
  (sendError "Invalid value for parameter 'category'." (Some 404) "NOT_FOUND",
   logged query w).
Proof. intros H. rewrite trivia_handler_cases, H. reflexivity. Qed.

Lemma trivia_handler_limit (query : Query) (w : World) (c : Category) :
  Array_find (has_id query) (categories w) = Some c ->
  limit_out_of_range query = true ->
  trivia_handler query w =
  (sendError "Invalid value for parameter 'limit'. Must be between 1 and 50."
             (Some 400) "VALIDATION",
   logged query w).
Proof. intros H Hl. rewrite trivia_handler_cases, H, Hl. reflexivity. Qed.

Lemma trivia_handler_success (query : Query) (w : World) (c : Category) :
  Array_find (has_id query) (categories w) = Some c ->
  limit_out_of_range query = false ->
  trivia_handler query w =
  (success_response (limited_questions query w), success_world query w).
Proof.
  intros H Hl. rewrite trivia_handler_cases, H, Hl. apply trivia_pipeline_run.
Qed.

(** ** Reading the tests of the handler *)

Lemma strict_eq_Num (z : Z) (n : number) :
  strict_eq (Num z) n = true <-> n = Num z.
Proof.
  destruct n as [y |]; simpl; [| split; discriminate].
  rewrite Z.eqb_eq. split; congruence.
Qed.

Lemma matches_true (category difficulty : string) (t : TriviaQuestion) :
  matches category difficulty t = true <->
  Number (VString category) = Num (t_category t) /\
  (difficulty = "any" \/ t_difficulty t = difficulty).
Proof.
  unfold matches.
  rewrite andb_true_iff, orb_true_iff, strict_eq_Num, !String.eqb_eq.
  reflexivity.
Qed.

Lemma find_has_id_Some (query : Query) (cs : list Category) (c : Category) :
  Array_find (has_id query) cs = Some c ->
  In c cs /\ Number (VString (category query)) = Num (cat_id c).
Proof.
  intros H. apply List.find_some in H as [Hin Hid].
  split; [exact Hin |]. apply strict_eq_Num. exact Hid.
Qed.

Lemma find_has_id_None (query : Query) (cs : list Category) :
  Array_find (has_id query) cs = None <->
  forall c, In c cs -> Number (VString (category query)) <> Num (cat_id c).
Proof.
  split.
  - intros H c Hin Heq. apply (List.find_none _ _ H) in Hin.
    apply strict_eq_Num in Heq. unfold has_id in Hin. congruence.
  - intros H. destruct (Array_find _ _) as [c |] eqn:E; [| reflexivity].
    apply find_has_id_Some in E as [Hin Heq]. destruct (H c Hin Heq).
Qed.

Lemma limit_out_of_range_Num (query : Query) (n : Z) :
  Number (limit_of query) = Num n ->
  limit_out_of_range query = true <-> n < 1 \/ 50 < n.
Proof.
  intros H. unfold limit_out_of_range, gt. rewrite H. simpl.
  rewrite orb_true_iff, !Z.ltb_lt. reflexivity.
Qed.

(** A request is answered with 200 exactly when both checks pass. *)
Lemma trivia_handler_200 (query : Query) (w : World) :
  status (fst (trivia_handler query w)) = 200 ->
  (exists c, Array_find (has_id query) (categories w) = Some c) /\
  limit_out_of_range query = false.
Proof.
  rewrite trivia_handler_cases.
  destruct (Array_find _ _) as [c |]; simpl; [| discriminate].
  destruct (limit_out_of_range query); simpl; [discriminate |]. eauto.
Qed.

Lemma shuffled_perm (query : Query) (w : World) :
  Permutation (shuffled_questions query w) (matching_questions query w).
Proof. apply sort_elements_perm. Qed.

Lemma limited_in_matching (query : Query) (w : World) (t : TriviaQuestion) :
  In t (limited_questions query w) -> In t (matching_questions query w).
Proof.
  intros H. apply (Permutation_in _ (shuffled_perm query w)).
  apply list_elem_of_In. apply list_elem_of_In in H.
  exact (subseteq_take _ _ _ H).
Qed.

Lemma slice_final_le (len : nat) (n : Z) :
  0 <= n -> Z.of_nat (slice_final len (Num n)) <= n.
Proof.
  intros H. unfold slice_final. destruct (Z.ltb_spec n 0); lia.
Qed.

Lemma slice_final_all (len : nat) (n : Z) :
  Z.of_nat len <= n -> slice_final len (Num n) = len.
Proof.
  intros H. unfold slice_final. destruct (Z.ltb_spec n 0); lia.
Qed.

Lemma limited_length (query : Query) (w : World) (n : Z) :
  Number (limit_of query) = Num n ->
  limit_out_of_range query = false ->
  Z.of_nat (length (limited_questions query w)) <= n /\
  (length (limited_questions query w)
   <= length (matching_questions query w))%nat.
Proof.
  intros Hn Hl.
  assert (Hrange : ~ (n < 1 \/ 50 < n)).
  { rewrite <- (limit_out_of_range_Num query n Hn), Hl. discriminate. }
  unfold limited_questions. rewrite length_take, Hn.
  rewrite <- (Permutation_length (shuffled_perm query w)).
  pose proof (slice_final_le (length (shuffled_questions query w)) n).
  lia.
Qed.

Lemma decimal_nonneg (s : string) (acc n : Z) :
  0 <= acc -> decimal acc s = Some n -> 0 <= n.
Proof.
  revert acc. induction s as [| ch s IH]; intros acc Hacc H; simpl in H.
  - congruence.
  - unfold digit in H. destruct (_ && _) eqn:E; [| discriminate].
    apply andb_true_iff in E as [E1 _]. apply Z.leb_le in E1.
    simpl in H. eapply IH; [| exact H]. lia.
Qed.

(** Under the schema of the route the parameters are numbers: [category]
    and [limit] parse to integers that are not negative. *)
Lemma all_digits_Number (s : string) :
  all_digits s = true -> exists n, Number (VString s) = Num n /\ 0 <= n.
Proof.
  intros H. assert (Hd : is_Some (decimal 0 s)).
  { destruct s; [discriminate |]. unfold all_digits in H.
    apply bool_decide_eq_true in H. exact H. }
  destruct Hd as [n Hn]. exists n. simpl. rewrite Hn.
  split; [reflexivity |]. apply (decimal_nonneg s 0 n); [lia | exact Hn].
Qed.

Lemma query_schema_Number (query : Query) :
  query_schema query = true ->
  (exists n, Number (VString (category query)) = Num n /\ 0 <= n) /\
  (exists n, Number (limit_of query) = Num n /\ 0 <= n).
Proof.
  unfold query_schema, limit_of. rewrite !andb_true_iff.
  intros [[Hc _] Hl]. split; [apply all_digits_Number, Hc |].
  destruct (limit query) as [s |]; simpl in Hl.
  - apply all_digits_Number, Hl.
  - exists 10. split; [reflexivity | lia].
Qed.

(** ** The claims *)

(** C1: when a request to [/v1/trivia] whose category parses to [n] is
    answered with status 200, the body is the array of questions that all
    have [category] equal to [n], and, when the requested difficulty is not
    ["any"], all have the requested difficulty. *)
Theorem trivia_only_requested (query : Query) (w : World) (n : Z) :
  Number (VString (category query)) = Num n ->
  status (fst (trivia_handler query w)) = 200 ->
  exists ts,
    body (fst (trivia_handler query w)) =
      JSON_stringify (JArray (map TriviaQuestion_json ts)) /\
    Forall (fun t => t_category t = n /\
                     (difficulty_of query <> "any" ->
                      t_difficulty t = difficulty_of query)) ts.
Proof.
  intros Hn H200. destruct (trivia_handler_200 _ _ H200) as [[c Hc] Hl].
  rewrite (trivia_handler_success _ _ _ Hc Hl).
  exists (limited_questions query w). split; [reflexivity |].
  apply List.Forall_forall. intros t Ht.
  apply limited_in_matching, List.filter_In in Ht as [_ Ht].
  apply matches_true in Ht as [Hcat Hdiff].
  split; [congruence |]. intros Hany. destruct Hdiff; [contradiction | assumption].
Qed.

Lemma trivia_only_requested_witness :
  exists ts,
    body (fst (trivia_handler (sample_query "1" (Some "easy") (Some "2"))
                              sample_world)) =
      JSON_stringify (JArray (map TriviaQuestion_json ts)) /\
    Forall (fun t => t_category t = 1 /\
                     (difficulty_of (sample_query "1" (Some "easy") (Some "2"))
                        <> "any" ->
                      t_difficulty t =
                        difficulty_of (sample_query "1" (Some "easy") (Some "2"))))
           ts.
Proof.
  apply (trivia_only_requested
           (sample_query "1" (Some "easy") (Some "2")) sample_world 1);
    vm_compute; reflexivity.
Defined.

(** C2: when a request to [/v1/trivia] with limit [n] is answered with
    status 200, the returned array has at most [n] elements and at most as
    many as there are questions in the data store that pass the filter. *)
Theorem trivia_length_bounds (query : Query) (w : World) (n : Z) :
  Number (limit_of query) = Num n ->
  status (fst (trivia_handler query w)) = 200 ->
  exists ts,
    body (fst (trivia_handler query w)) =
      JSON_stringify (JArray (map TriviaQuestion_json ts)) /\
    Z.of_nat (length ts) <= n /\
    (length ts <= length (matching_questions query w))%nat.
Proof.
  intros Hn H200. destruct (trivia_handler_200 _ _ H200) as [[c Hc] Hl].
  rewrite (trivia_handler_success _ _ _ Hc Hl).
  exists (limited_questions query w). split; [reflexivity |].
  apply limited_length; assumption.
Qed.

Lemma trivia_length_bounds_witness :
  exists ts,
    body (fst (trivia_handler (sample_query "1" (Some "easy") (Some "2"))
                              sample_world)) =
      JSON_stringify (JArray (map TriviaQuestion_json ts)) /\
    Z.of_nat (length ts) <= 2 /\
    (length ts <=
     length (matching_questions (sample_query "1" (Some "easy") (Some "2"))
                                sample_world))%nat.
Proof.
  apply (trivia_length_bounds
           (sample_query "1" (Some "easy") (Some "2")) sample_world 2);
    vm_compute; reflexivity.
Defined.

(** C3: a request to [/v1/trivia] whose category parses to an integer [n]
    (of at most 2^53, which a double holds as it is written) that is the id
    of no category is answered with status 404 and [error_type]
    ["NOT_FOUND"], whatever its limit (and difficulty) is: the check comes
    before the check of the limit. *)
Theorem trivia_unknown_category
    (cat : string) (diff lim : option string) (w : World) (n : Z) :
  Number (VString cat) = Num n ->
  n <= 2 ^ 53 ->
  (forall c, In c (categories w) -> cat_id c <> n) ->
  fst (trivia_handler {| category := cat; difficulty := diff;
                         limit := lim |} w) =
  {| body := JSON_stringify
               (JObject
                  [("error_type", JString "NOT_FOUND");
                   ("error", JString "Invalid value for parameter 'category'.");
                   ("docs", JString "https://trivia-time-api.onrender.com/docs")]);
     status := 404;
     headers := [("Content-Type", "application/json")] |}.
Proof.
  intros Hn _ Hnone. rewrite trivia_handler_not_found; [reflexivity |].
  apply find_has_id_None. intros c Hin Heq. cbn [category] in Heq.
  apply (Hnone c Hin). congruence.
Qed.

Lemma trivia_unknown_category_witness :
  fst (trivia_handler {| category := "99999"; difficulty := None;
                         limit := Some "51" |} sample_world) =
  {| body := JSON_stringify
               (JObject
                  [("error_type", JString "NOT_FOUND");
                   ("error", JString "Invalid value for parameter 'category'.");
                   ("docs", JString "https://trivia-time-api.onrender.com/docs")]);
     status := 404;
     headers := [("Content-Type", "application/json")] |}.
Proof.
  apply (trivia_unknown_category "99999" None (Some "51") sample_world 99999).
  - reflexivity.
  - vm_compute. discriminate.
  - intros c Hin. simpl in Hin.
    destruct Hin as [<- | [<- | [<- | []]]]; simpl; lia.
Defined.

(** C4: a request to [/v1/trivia] whose category is the id of a category
    and whose limit parses to an integer below 1 or above 50 is answered
    with status 400 and [error_type] ["VALIDATION"]. *)
Theorem trivia_limit_out_of_range
    (query : Query) (w : World) (c : Category) (n : Z) :
  In c (categories w) ->
  Number (VString (category query)) = Num (cat_id c) ->
  Number (limit_of query) = Num n ->
  n < 1 \/ 50 < n ->
  fst (trivia_handler query w) =
  {| body := JSON_stringify
               (JObject
                  [("error_type", JString "VALIDATION");
                   ("error",
                    JString "Invalid value for parameter 'limit'. Must be between 1 and 50.");
                   ("docs", JString "https://trivia-time-api.onrender.com/docs")]);
     status := 400;
     headers := [("Content-Type", "application/json")] |}.
Proof.
  intros Hin Hid Hn Hout.
  destruct (Array_find (has_id query) (categories w)) as [c' |] eqn:Hfind.
  - rewrite (trivia_handler_limit _ _ _ Hfind); [reflexivity |].
    apply (limit_out_of_range_Num query n Hn). exact Hout.
  - destruct (proj1 (find_has_id_None _ _) Hfind c Hin Hid).
Qed.

Lemma trivia_limit_out_of_range_witness :
  fst (trivia_handler (sample_query "2" None (Some "0")) sample_world) =
  {| body := JSON_stringify
               (JObject
                  [("error_type", JString "VALIDATION");
                   ("error",
                    JString "Invalid value for parameter 'limit'. Must be between 1 and 50.");
                   ("docs", JString "https://trivia-time-api.onrender.com/docs")]);
     status := 400;
     headers := [("Content-Type", "application/json")] |}.
Proof.
  apply (trivia_limit_out_of_range (sample_query "2" None (Some "0"))
           sample_world
           {| cat_id := 2; cat_image := ""; cat_name := "Science" |} 0).
  - simpl. auto.
  - reflexivity.
  - reflexivity.
  - lia.
Defined.

(** C5: when a request to [/v1/trivia] is answered with status 200 and its
    limit [n] is at least the number of questions that pass the filter, the
    returned array is a rearrangement of exactly those questions, whatever
    the outcomes of [Math.random] (the [entropy] of the world) are. *)
Theorem trivia_shuffle_keeps_content (query : Query) (w : World) (n : Z) :
  Number (limit_of query) = Num n ->
  status (fst (trivia_handler query w)) = 200 ->
  Z.of_nat (length (matching_questions query w)) <= n ->
  exists ts,
    body (fst (trivia_handler query w)) =
      JSON_stringify (JArray (map TriviaQuestion_json ts)) /\
    Permutation ts (matching_questions query w).
Proof.
  intros Hn H200 Hall. destruct (trivia_handler_200 _ _ H200) as [[c Hc] Hl].
  rewrite (trivia_handler_success _ _ _ Hc Hl).
  exists (limited_questions query w). split; [reflexivity |].
  unfold limited_questions. rewrite Hn, slice_final_all, firstn_all.
  - apply shuffled_perm.
  - rewrite (Permutation_length (shuffled_perm query w)). exact Hall.
Qed.

Lemma trivia_shuffle_keeps_content_witness :
  exists ts,
    body (fst (trivia_handler (sample_query "1" (Some "easy") (Some "3"))
                              sample_world)) =
      JSON_stringify (JArray (map TriviaQuestion_json ts)) /\
    Permutation ts (matching_questions
                      (sample_query "1" (Some "easy") (Some "3")) sample_world).
Proof.
  apply (trivia_shuffle_keeps_content
           (sample_query "1" (Some "easy") (Some "3")) sample_world 3).
  - reflexivity.
  - vm_compute. reflexivity.
  - vm_compute. discriminate.
Defined.

(** C6: [/v1/categories] answers with status 200 and the JSON array of all
    the category records of the data store, in their stored order and
    unmodified, each an object with the keys [id], [image] and [name]; it
    reads no parameter and leaves the state as it was. *)
Theorem categories_listing (w : World) :
  serve GetCategories w =
    ({| body := JSON_stringify (JArray (map Category_json (categories w)));
        status := 200;
        headers := [("Content-Type", "application/json")] |}, w) /\
  Forall (fun j => JSON_keys j = ["id"; "image"; "name"])
         (map Category_json (categories w)).
Proof.
  split; [reflexivity |].
  apply List.Forall_forall. intros j Hj.
  apply List.in_map_iff in Hj as (c & <- & _). reflexivity.
Qed.

(** C7: a request to [/v1/trivia] without [difficulty] runs exactly as the
    same request with [difficulty=any]; a request without [limit] gets the
    answer of the same request with [limit=10] and leaves the same state,
    but for the line of the console, which shows the number 10 in place of
    the string; and an answer with status 200 to a request without [limit]
    has at most 10 questions. *)
Theorem trivia_defaults :
  (forall cat lim w,
     trivia_handler {| category := cat; difficulty := None; limit := lim |} w =
     trivia_handler {| category := cat; difficulty := Some "any";
                       limit := lim |} w) /\
  (forall cat diff w,
     let omitted := trivia_handler {| category := cat; difficulty := diff;
                                      limit := None |} w in
     let given := trivia_handler {| category := cat; difficulty := diff;
                                    limit := Some "10" |} w in
     fst omitted = fst given /\
     categories (snd omitted) = categories (snd given) /\
     trivia (snd omitted) = trivia (snd given) /\
     heap (snd omitted) = heap (snd given) /\
     entropy (snd omitted) = entropy (snd given) /\
     drawn (snd omitted) = drawn (snd given) /\
     console (snd omitted) =
       (console w ++ [{| log_category := cat;
                         log_difficulty := default "any" diff;
                         log_limit := VNumber (Num 10) |}])%list /\
     console (snd given) =
       (console w ++ [{| log_category := cat;
                         log_difficulty := default "any" diff;
                         log_limit := VString "10" |}])%list) /\
  (forall cat diff w,
     let omitted := trivia_handler {| category := cat; difficulty := diff;
                                      limit := None |} w in
     status (fst omitted) = 200 ->
     exists ts,
       body (fst omitted) = JSON_stringify (JArray (map TriviaQuestion_json ts))
       /\ (length ts <= 10)%nat).
Proof.
  split; [reflexivity | split].
  - intros cat diff w omitted given. subst omitted given.
    rewrite !trivia_handler_cases.
    change (has_id {| category := cat; difficulty := diff; limit := Some "10" |})
      with (has_id {| category := cat; difficulty := diff; limit := None |}).
    destruct (not_truthy _); [repeat split |].
    change (limit_out_of_range
              {| category := cat; difficulty := diff; limit := Some "10" |})
      with false.
    change (limit_out_of_range
              {| category := cat; difficulty := diff; limit := None |})
      with false.
    cbv iota. rewrite !trivia_pipeline_run. repeat split.
  - intros cat diff w omitted H200. subst omitted.
    destruct (trivia_handler_200 _ _ H200) as [[c Hc] Hl].
    rewrite (trivia_handler_success _ _ _ Hc Hl).
    eexists. split; [reflexivity |].
    destruct (limited_length
                {| category := cat; difficulty := diff; limit := None |} w 10
                eq_refl Hl) as [Hlen _].
    lia.
Qed.

Lemma trivia_defaults_witness :
  exists ts,
    body (fst (trivia_handler {| category := "1"; difficulty := None;
                                 limit := None |} sample_world)) =
      JSON_stringify (JArray (map TriviaQuestion_json ts))
    /\ (length ts <= 10)%nat.
Proof.
  apply (proj2 (proj2 trivia_defaults) "1" None sample_world).
  vm_compute. reflexivity.
Defined.

(** C8: every answer of the application whose status is not 200 has for
    body the JSON object with exactly the keys [error_type], [error] and
    [docs], where [docs] is the address of the documentation and
    [error_type] is one of the five codes, with status 400 for [VALIDATION]
    and [PARSE], 404 for [NOT_FOUND], 500 for [INTERNAL_SERVER_ERROR] and
    [UNKNOWN]. *)
Theorem error_responses_shape (i : Incoming) (w : World) :
  status (fst (serve i w)) <> 200 ->
  exists error_type error,
    body (fst (serve i w)) =
      JSON_stringify
        (JObject [("error_type", JString error_type);
                  ("error", JString error);
                  ("docs", JString "https://trivia-time-api.onrender.com/docs")])
    /\ ((error_type = "VALIDATION" \/ error_type = "PARSE") /\
        status (fst (serve i w)) = 400
        \/ error_type = "NOT_FOUND" /\ status (fst (serve i w)) = 404
        \/ (error_type = "INTERNAL_SERVER_ERROR" \/ error_type = "UNKNOWN") /\
           status (fst (serve i w)) = 500).
Proof.
  destruct i as [| | query | code message]; simpl.
  - intros H. destruct H. reflexivity.
  - intros H. destruct H. reflexivity.
  - rewrite trivia_handler_cases.
    destruct (not_truthy _); [| destruct (limit_out_of_range query)]; intros H.
    + eexists _, _. split; [reflexivity |]. simpl. auto.
    + eexists _, _. split; [reflexivity |]. simpl. auto.
    + destruct H. rewrite trivia_pipeline_run. reflexivity.
  - intros _. exists (ErrorCode_string code), message.
    split; [reflexivity |]. destruct code; simpl; auto 6.
Qed.

Lemma error_responses_shape_witness :
  exists error_type error,
    body (fst (serve (Raised PARSE "Bad Request") sample_world)) =
      JSON_stringify
        (JObject [("error_type", JString error_type);
                  ("error", JString error);
                  ("docs", JString "https://trivia-time-api.onrender.com/docs")])
    /\ ((error_type = "VALIDATION" \/ error_type = "PARSE") /\
        status (fst (serve (Raised PARSE "Bad Request") sample_world)) = 400
        \/ error_type = "NOT_FOUND" /\
           status (fst (serve (Raised PARSE "Bad Request") sample_world)) = 404
        \/ (error_type = "INTERNAL_SERVER_ERROR" \/ error_type = "UNKNOWN") /\
           status (fst (serve (Raised PARSE "Bad Request") sample_world)) = 500).
Proof.
  apply (error_responses_shape (Raised PARSE "Bad Request") sample_world).
  simpl. lia.
Defined.

Lemma success_heap_frame (query : Query) (w : World) (a : loc) :
  is_Some (heap w !! a) -> success_heap query w !! a = heap w !! a.
Proof.
  intros Ha. apply elem_of_dom in Ha. unfold success_heap.
  set (a1 := fresh (dom (heap w))).
  assert (H1 : a1 <> a).
  { intros <-. exact (is_fresh (dom (heap w)) Ha). }
  set (h := <[a1 := shuffled_questions query w]> _).
  assert (H2 : fresh (dom h) <> a).
  { intros E. apply (is_fresh (dom h)). rewrite E. unfold h.
    rewrite !dom_insert_L. set_solver. }
  rewrite lookup_insert_ne by exact H2. unfold h.
  rewrite !lookup_insert_ne by exact H1. reflexivity.
Qed.

(** C9: whatever the application is asked, the bindings [categories] and
    [trivia] and the array object behind [trivia] are afterwards what they
    were before, and so is every array object that existed before: the sort
    of the handler writes to the array object made by [filter], which is a
    new one, and [slice] makes another. *)
Theorem data_store_unchanged (i : Incoming) (w : World) :
  is_Some (heap w !! trivia w) ->
  categories (snd (serve i w)) = categories w /\
  trivia (snd (serve i w)) = trivia w /\
  heap (snd (serve i w)) !! trivia (snd (serve i w)) = heap w !! trivia w /\
  (forall a, is_Some (heap w !! a) ->
             heap (snd (serve i w)) !! a = heap w !! a) /\
  (forall query, i = GetTrivia query ->
     status (fst (serve i w)) = 200 ->
     heap w !! fresh (dom (heap w)) = None /\
     heap (snd (serve i w)) !! fresh (dom (heap w)) =
       Some (shuffled_questions query w)).
Proof.
  intros Htrivia.
  assert (Herror : forall r w',
            serve i w = (r, w') -> status r <> 200 ->
            categories w' = categories w -> trivia w' = trivia w ->
            heap w' = heap w ->
            categories (snd (serve i w)) = categories w /\
            trivia (snd (serve i w)) = trivia w /\
            heap (snd (serve i w)) !! trivia (snd (serve i w)) =
              heap w !! trivia w /\
            (forall a, is_Some (heap w !! a) ->
                       heap (snd (serve i w)) !! a = heap w !! a) /\
            (forall query, i = GetTrivia query ->
               status (fst (serve i w)) = 200 ->
               heap w !! fresh (dom (heap w)) = None /\
               heap (snd (serve i w)) !! fresh (dom (heap w)) =
                 Some (shuffled_questions query w))).
  { intros r w' -> Hstatus Hc Ht Hh. cbn [fst snd]. rewrite Hc, Ht, Hh.
    repeat apply conj; auto. intros query _ H200. contradiction. }
  destruct i as [| | query | code message].
  - repeat apply conj; auto. discriminate.
  - repeat apply conj; auto. discriminate.
  - change (serve (GetTrivia query) w) with (trivia_handler query w) in *.
    rewrite trivia_handler_cases in *.
    destruct (not_truthy _); [| destruct (limit_out_of_range query)].
    + eapply Herror; [reflexivity | discriminate | reflexivity ..].
    + eapply Herror; [reflexivity | discriminate | reflexivity ..].
    + clear Herror. rewrite trivia_pipeline_run.
      cbn [fst snd success_world categories trivia heap].
      repeat apply conj; auto using success_heap_frame.
      intros query' Hq _. injection Hq as <-. split.
      * apply not_elem_of_dom, is_fresh.
      * unfold success_heap.
        set (a1 := fresh (dom (heap w))).
        set (h := <[a1 := shuffled_questions query w]> _).
        assert (Hin : a1 ∈ dom h).
        { unfold h. rewrite dom_insert_L. set_solver. }
        rewrite lookup_insert_ne.
        -- unfold h. apply lookup_insert_eq.
        -- intros E. apply (is_fresh (dom h)). rewrite E. exact Hin.
  - eapply Herror; [reflexivity | destruct code; discriminate | reflexivity ..].
Qed.

Lemma data_store_unchanged_witness :
  is_Some (heap sample_world !! trivia sample_world) /\
  categories (snd (serve (GetTrivia (sample_query "1" None None)) sample_world))
  = categories sample_world /\
  heap (snd (serve (GetTrivia (sample_query "1" None None)) sample_world))
    !! trivia (snd (serve (GetTrivia (sample_query "1" None None)) sample_world))
  = heap sample_world !! trivia sample_world.
Proof.
  assert (H : is_Some (heap sample_world !! trivia sample_world)).
  { eexists. vm_compute. reflexivity. }
  split; [exact H |].
  destruct (data_store_unchanged (GetTrivia (sample_query "1" None None))
              sample_world H) as (Hc & _ & Ht & _).
  split; [exact Hc | exact Ht].
Defined.

(** C10: a request to [/v1/trivia] whose category is the id of a category
    and whose limit is in the range 1 to 50 is answered, when no question
    of the data store passes the filter, with status 200 and the empty JSON
    array. *)
Theorem trivia_no_match_is_empty_ok
    (query : Query) (w : World) (c : Category) (n : Z) :
  In c (categories w) ->
  Number (VString (category query)) = Num (cat_id c) ->
  Number (limit_of query) = Num n ->
  1 <= n <= 50 ->
  matching_questions query w = [] ->
  fst (trivia_handler query w) =
  {| body := JSON_stringify (JArray []);
     status := 200;
     headers := [("Content-Type", "application/json")] |}.
Proof.
  intros Hin Hid Hn Hrange Hnone.
  destruct (Array_find (has_id query) (categories w)) as [c' |] eqn:Hfind.
  - rewrite (trivia_handler_success _ _ _ Hfind).
    + simpl. unfold limited_questions.
      pose proof (shuffled_perm query w) as Hp. rewrite Hnone in Hp.
      apply Permutation_nil_r in Hp. rewrite Hp, firstn_nil. reflexivity.
    + destruct (limit_out_of_range query) eqn:E; [| reflexivity].
      apply (limit_out_of_range_Num query n Hn) in E. lia.
  - destruct (proj1 (find_has_id_None _ _) Hfind c Hin Hid).
Qed.

Lemma trivia_no_match_is_empty_ok_witness :
  fst (trivia_handler (sample_query "7" (Some "hard") (Some "50"))
                      sample_world) =
  {| body := JSON_stringify (JArray []);
     status := 200;
     headers := [("Content-Type", "application/json")] |}.
Proof.
  apply (trivia_no_match_is_empty_ok
           (sample_query "7" (Some "hard") (Some "50")) sample_world
           {| cat_id := 7; cat_image := ""; cat_name := "Empty" |} 50).
  - simpl. auto.
  - reflexivity.
  - reflexivity.
  - lia.
  - vm_compute. reflexivity.
Defined.

(** ** More on the handlers *)

Lemma trivia_status (query : Query) (w : World) :
  status (fst (trivia_handler query w)) =
  if not_truthy (Array_find (has_id query) (categories w)) then 404
  else if limit_out_of_range query then 400 else 200.
Proof.
  rewrite trivia_handler_cases.
  destruct (not_truthy _); [reflexivity |].
  destruct (limit_out_of_range query); [reflexivity |].
  rewrite trivia_pipeline_run. reflexivity.
Qed.

Lemma find_known (query : Query) (w : World) (n : Z) :
  Number (VString (category query)) = Num n ->
  not_truthy (Array_find (has_id query) (categories w)) = false <->
  known_category w n.
Proof.
  intros Hn. unfold known_category. split.
  - destruct (Array_find _ _) as [c |] eqn:E; [| discriminate].
    intros _. apply find_has_id_Some in E as [Hin Hid].
    exists c. split; [exact Hin | congruence].
  - intros (c & Hin & Hid).
    destruct (Array_find _ _) as [c' |] eqn:E; [reflexivity |].
    destruct (proj1 (find_has_id_None _ _) E c Hin). congruence.
Qed.

Lemma limited_drop (query : Query) (w : World) :
  Permutation
    (limited_questions query w ++
     drop (slice_final (length (shuffled_questions query w))
                       (Number (limit_of query)))
          (shuffled_questions query w))
    (matching_questions query w).
Proof.
  unfold limited_questions. rewrite take_drop. apply shuffled_perm.
Qed.

Lemma NoDup_map_filter {A B} (f : A -> B) (p : A -> bool) (l : list A) :
  NoDup (map f l) -> NoDup (map f (List.filter p l)).
Proof.
  induction l as [| x l IH]; simpl; intros H; [exact H |].
  apply NoDup_cons in H as [Hx Hl].
  destruct (p x); simpl; [| auto].
  apply NoDup_cons. split; [| auto].
  intros Hin. apply Hx. apply list_elem_of_In in Hin. apply list_elem_of_In.
  apply List.in_map_iff in Hin as (y & Hy & Hin).
  apply List.filter_In in Hin as [Hin _].
  apply List.in_map_iff. eauto.
Qed.

(** X1: a request to [/v1/trivia] with limit [n] that is answered with
    status 200 returns exactly as many questions as the smaller of [n] and
    the number of questions that pass the filter. *)
Theorem trivia_exact_length (query : Query) (w : World) (n : Z) :
  Number (limit_of query) = Num n ->
  status (fst (trivia_handler query w)) = 200 ->
  exists ts,
    body (fst (trivia_handler query w)) =
      JSON_stringify (JArray (map TriviaQuestion_json ts)) /\
    Z.of_nat (length ts) =
      Z.min n (Z.of_nat (length (matching_questions query w))).
Proof.
  intros Hn H200. destruct (trivia_handler_200 _ _ H200) as [[c Hc] Hl].
  rewrite (trivia_handler_success _ _ _ Hc Hl).
  exists (limited_questions query w). split; [reflexivity |].
  assert (Hrange : ~ (n < 1 \/ 50 < n)).
  { rewrite <- (limit_out_of_range_Num query n Hn), Hl. discriminate. }
  unfold limited_questions. rewrite length_take, Hn.
  rewrite <- (Permutation_length (shuffled_perm query w)).
  unfold slice_final. destruct (Z.ltb_spec n 0); lia.
Qed.

Lemma trivia_exact_length_witness :
  exists ts,
    body (fst (trivia_handler (sample_query "1" None (Some "3")) sample_world))
      = JSON_stringify (JArray (map TriviaQuestion_json ts)) /\
    Z.of_nat (length ts) =
      Z.min 3 (Z.of_nat (length (matching_questions
                                   (sample_query "1" None (Some "3"))
                                   sample_world))).
Proof.
  apply (trivia_exact_length (sample_query "1" None (Some "3")) sample_world 3);
    vm_compute; reflexivity.
Defined.

(** X2: the questions of a 200 answer of [/v1/trivia], together with the
    ones that the limit has cut off, are a rearrangement of the questions of
    the data store that pass the filter: every returned question is a stored
    one that passes, and none is returned more often than it is stored. *)
Theorem trivia_returned_from_matching (query : Query) (w : World) :
  status (fst (trivia_handler query w)) = 200 ->
  exists ts dropped,
    body (fst (trivia_handler query w)) =
      JSON_stringify (JArray (map TriviaQuestion_json ts)) /\
    Permutation (ts ++ dropped) (matching_questions query w).
Proof.
  intros H200. destruct (trivia_handler_200 _ _ H200) as [[c Hc] Hl].
  rewrite (trivia_handler_success _ _ _ Hc Hl).
  eexists _, _. split; [reflexivity |]. apply limited_drop.
Qed.

Lemma trivia_returned_from_matching_witness :
  exists ts dropped,
    body (fst (trivia_handler (sample_query "1" None (Some "3")) sample_world))
      = JSON_stringify (JArray (map TriviaQuestion_json ts)) /\
    Permutation (ts ++ dropped)
      (matching_questions (sample_query "1" None (Some "3")) sample_world).
Proof.
  apply (trivia_returned_from_matching
           (sample_query "1" None (Some "3")) sample_world).
  vm_compute. reflexivity.
Defined.

(** X3: when the questions of the data store have pairwise different ids,
    so have the questions of a 200 answer of [/v1/trivia]: shuffling and
    cutting never return a question twice. *)
Theorem trivia_no_duplicates (query : Query) (w : World) :
  NoDup (map t_id (default [] (heap w !! trivia w))) ->
  status (fst (trivia_handler query w)) = 200 ->
  exists ts,
    body (fst (trivia_handler query w)) =
      JSON_stringify (JArray (map TriviaQuestion_json ts)) /\
    NoDup (map t_id ts).
Proof.
  intros Hnd H200. destruct (trivia_handler_200 _ _ H200) as [[c Hc] Hl].
  rewrite (trivia_handler_success _ _ _ Hc Hl).
  exists (limited_questions query w). split; [reflexivity |].
  apply (NoDup_map_filter t_id
           (matches (category query) (difficulty_of query))) in Hnd.
  fold (matching_questions query w) in Hnd.
  rewrite <- (Permutation_map t_id (limited_drop query w)) in Hnd.
  rewrite map_app in Hnd. apply NoDup_app in Hnd as [Hnd _]. exact Hnd.
Qed.

Lemma trivia_no_duplicates_witness :
  exists ts,
    body (fst (trivia_handler (sample_query "1" None (Some "3")) sample_world))
      = JSON_stringify (JArray (map TriviaQuestion_json ts)) /\
    NoDup (map t_id ts).
Proof.
  apply (trivia_no_duplicates (sample_query "1" None (Some "3")) sample_world).
  - apply (bool_decide_unpack _). vm_compute. exact I.
  - vm_compute. reflexivity.
Defined.

(** X4: every question of a 200 answer of [/v1/trivia] has for [category]
    the id of a category of the data store: a question whose category is no
    known category is never returned. *)
Theorem trivia_returned_category_known (query : Query) (w : World) :
  status (fst (trivia_handler query w)) = 200 ->
  exists ts,
    body (fst (trivia_handler query w)) =
      JSON_stringify (JArray (map TriviaQuestion_json ts)) /\
    Forall (fun t => known_category w (t_category t)) ts.
Proof.
  intros H200. destruct (trivia_handler_200 _ _ H200) as [[c Hc] Hl].
  rewrite (trivia_handler_success _ _ _ Hc Hl).
  exists (limited_questions query w). split; [reflexivity |].
  apply find_has_id_Some in Hc as [Hin Hid].
  apply List.Forall_forall. intros t Ht.
  apply limited_in_matching, List.filter_In in Ht as [_ Ht].
  apply matches_true in Ht as [Hcat _].
  exists c. split; [exact Hin | congruence].
Qed.

Lemma trivia_returned_category_known_witness :
  exists ts,
    body (fst (trivia_handler (sample_query "2" None None) sample_world))
      = JSON_stringify (JArray (map TriviaQuestion_json ts)) /\
    Forall (fun t => known_category sample_world (t_category t)) ts.
Proof.
  apply (trivia_returned_category_known (sample_query "2" None None)
           sample_world).
  vm_compute. reflexivity.
Defined.

(** X5: a request to [/v1/trivia] that the schema of the route admits, with
    a category and a limit of at most 2^53 (which a double holds as they are
    written), has parameters that parse to integers [n] (category) and [m]
    (limit, 10 when left out) from 0 to 2^53, and its status is one of 200,
    400 and 404: 404 exactly when [n] is the id of no category, 400 exactly
    when it is one and [m] is 0 or more than 50, 200 exactly when it is one
    and [m] is from 1 to 50. *)
Theorem trivia_status_by_schema (query : Query) (w : World) :
  query_schema query = true ->
  (forall z, Number (VString (category query)) = Num z -> z <= 2 ^ 53) ->
  (forall z, Number (limit_of query) = Num z -> z <= 2 ^ 53) ->
  exists n m,
    0 <= n <= 2 ^ 53 /\ 0 <= m <= 2 ^ 53 /\
    Number (VString (category query)) = Num n /\
    Number (limit_of query) = Num m /\
    (status (fst (trivia_handler query w)) = 404 <-> ~ known_category w n) /\
    (status (fst (trivia_handler query w)) = 400 <->
       known_category w n /\ (m = 0 \/ 50 < m)) /\
    (status (fst (trivia_handler query w)) = 200 <->
       known_category w n /\ 1 <= m <= 50).
Proof.
  intros Hs Hcat Hlim. destruct (query_schema_Number query Hs)
    as [(n & Hn & Hn0) (m & Hm & Hm0)].
  exists n, m.
  pose proof (Hcat n Hn) as Hn1. pose proof (Hlim m Hm) as Hm1.
  clear Hcat Hlim. revert Hn1 Hm1. generalize (2 ^ 53). intros bound Hn1 Hm1.
  pose proof (find_known query w n Hn) as Hk.
  pose proof (limit_out_of_range_Num query m Hm) as Hr.
  rewrite trivia_status.
  destruct (not_truthy _).
  - assert (Hnk : ~ known_category w n).
    { intros K. apply Hk in K. discriminate K. }
    intuition (try congruence; try lia).
  - assert (Hkn : known_category w n) by (apply Hk; reflexivity).
    destruct (limit_out_of_range query).
    + assert (Hout : m < 1 \/ 50 < m) by (apply Hr; reflexivity).
      intuition (try congruence; try lia).
    + assert (Hin : ~ (m < 1 \/ 50 < m)).
      { intros Hout. apply Hr in Hout. discriminate Hout. }
      intuition (try congruence; try lia).
Qed.

Lemma trivia_status_by_schema_witness :
  exists n m,
    0 <= n <= 2 ^ 53 /\ 0 <= m <= 2 ^ 53 /\
    Number (VString (category (sample_query "2" (Some "hard") (Some "51"))))
      = Num n /\
    Number (limit_of (sample_query "2" (Some "hard") (Some "51"))) = Num m /\
    (status (fst (trivia_handler (sample_query "2" (Some "hard") (Some "51"))
                                 sample_world)) = 404 <->
       ~ known_category sample_world n) /\
    (status (fst (trivia_handler (sample_query "2" (Some "hard") (Some "51"))
                                 sample_world)) = 400 <->
       known_category sample_world n /\ (m = 0 \/ 50 < m)) /\
    (status (fst (trivia_handler (sample_query "2" (Some "hard") (Some "51"))
                                 sample_world)) = 200 <->
       known_category sample_world n /\ 1 <= m <= 50).
Proof.
  apply (trivia_status_by_schema (sample_query "2" (Some "hard") (Some "51"))
           sample_world).
  - reflexivity.
  - intros z H. injection H as <-. vm_compute. discriminate.
  - intros z H. injection H as <-. vm_compute. discriminate.
Defined.

Lemma matching_questions_reading (q1 q2 : Query) (w : World) :
  Number (VString (category q1)) = Number (VString (category q2)) ->
  difficulty_of q1 = difficulty_of q2 ->
  matching_questions q1 w = matching_questions q2 w.
Proof.
  intros Hc Hd. unfold matching_questions, matches. rewrite Hc, Hd.
  reflexivity.
Qed.

(** X6: the handler of [/v1/trivia] reads [category] and [limit] through
    [Number] only: two requests whose categories parse to the same number,
    whose limits parse to the same number and whose difficulties are the
    same after the default (as [1] and [001], or [2] and [02]) get the same
    answer from the same state, and leave the same arrays and the same
    number of calls of [Math.random]. *)
Theorem trivia_reads_numbers (q1 q2 : Query) (w : World) :
  Number (VString (category q1)) = Number (VString (category q2)) ->
  difficulty_of q1 = difficulty_of q2 ->
  Number (limit_of q1) = Number (limit_of q2) ->
  fst (trivia_handler q1 w) = fst (trivia_handler q2 w) /\
  heap (snd (trivia_handler q1 w)) = heap (snd (trivia_handler q2 w)) /\
  drawn (snd (trivia_handler q1 w)) = drawn (snd (trivia_handler q2 w)).
Proof.
  intros Hc Hd Hl.
  pose proof (matching_questions_reading q1 q2 w Hc Hd) as Hm.
  assert (Hid : has_id q1 = has_id q2).
  { unfold has_id. rewrite Hc. reflexivity. }
  assert (Hr : limit_out_of_range q1 = limit_out_of_range q2).
  { unfold limit_out_of_range. rewrite Hl. reflexivity. }
  assert (Hs : shuffled_questions q1 w = shuffled_questions q2 w).
  { unfold shuffled_questions. rewrite Hm. reflexivity. }
  assert (Ht : limited_questions q1 w = limited_questions q2 w).
  { unfold limited_questions. rewrite Hs, Hl. reflexivity. }
  rewrite !trivia_handler_cases, Hid, Hr.
  destruct (not_truthy _); [repeat split |].
  destruct (limit_out_of_range q2); [repeat split |].
  rewrite !trivia_pipeline_run. cbn [fst snd heap drawn success_world].
  unfold success_heap. rewrite Hm, Hs, Ht. repeat split.
Qed.

Lemma trivia_reads_numbers_witness :
  fst (trivia_handler (sample_query "1" None (Some "2")) sample_world) =
  fst (trivia_handler (sample_query "001" (Some "any") (Some "02"))
                      sample_world) /\
  heap (snd (trivia_handler (sample_query "1" None (Some "2")) sample_world)) =
  heap (snd (trivia_handler (sample_query "001" (Some "any") (Some "02"))
                            sample_world)) /\
  drawn (snd (trivia_handler (sample_query "1" None (Some "2")) sample_world)) =
  drawn (snd (trivia_handler (sample_query "001" (Some "any") (Some "02"))
                             sample_world)).
Proof.
  apply (trivia_reads_numbers (sample_query "1" None (Some "2"))
           (sample_query "001" (Some "any") (Some "02")) sample_world);
    reflexivity.
Defined.

(** X7: a request to [/v1/trivia] writes one line to the console, with its
    category, its difficulty and its limit after the defaults, whether it is
    answered or refused; nothing else that the application answers writes
    to the console. *)
Theorem console_lines (i : Incoming) (w : World) :
  console (snd (serve i w)) =
  (console w ++ match i with
                | GetTrivia query => [log_line query]
                | _ => []
                end)%list.
Proof.
  destruct i as [| | query | code message];
    try (cbn [serve]; simpl; rewrite app_nil_r; reflexivity).
  change (serve (GetTrivia query) w) with (trivia_handler query w).
  rewrite trivia_handler_cases.
  destruct (not_truthy _); [reflexivity |].
  destruct (limit_out_of_range query); [reflexivity |].
  rewrite trivia_pipeline_run. reflexivity.
Qed.

(** X8: only a [/v1/trivia] request that is answered with status 200 makes
    array objects and calls [Math.random]: whatever else the application
    answers, refused requests included, leaves the heap and the number of
    calls as they were. *)
Theorem effects_only_on_success (i : Incoming) (w : World) :
  (forall query, i = GetTrivia query -> status (fst (serve i w)) <> 200) ->
  heap (snd (serve i w)) = heap w /\ drawn (snd (serve i w)) = drawn w.
Proof.
  intros H. destruct i as [| | query | code message]; try (split; reflexivity).
  specialize (H query eq_refl).
  change (serve (GetTrivia query) w) with (trivia_handler query w) in *.
  rewrite trivia_status in H. rewrite trivia_handler_cases.
  destruct (not_truthy _); [split; reflexivity |].
  destruct (limit_out_of_range query); [split; reflexivity |].
  destruct H. reflexivity.
Qed.

Lemma effects_only_on_success_witness :
  heap (snd (serve (GetTrivia (sample_query "1" None (Some "0")))
                   sample_world)) = heap sample_world /\
  drawn (snd (serve (GetTrivia (sample_query "1" None (Some "0")))
                    sample_world)) = drawn sample_world.
Proof.
  apply (effects_only_on_success
           (GetTrivia (sample_query "1" None (Some "0"))) sample_world).
  intros query _. vm_compute. discriminate.
Defined.

Lemma store_kept_refl (w : World) : store_kept w w.
Proof. repeat split. Qed.

Lemma store_kept_trans (w1 w2 w3 : World) :
  store_kept w1 w2 -> store_kept w2 w3 -> store_kept w1 w3.
Proof.
  intros (Hc & Ht & He & Hh) (Hc' & Ht' & He' & Hh').
  repeat apply conj; try congruence.
  intros a Ha. rewrite Hh'; [apply Hh, Ha |]. rewrite Hh; exact Ha.
Qed.

Lemma serve_store_kept (i : Incoming) (w : World) :
  store_kept w (snd (serve i w)).
Proof.
  destruct i as [| | query | code message]; try apply store_kept_refl.
  change (serve (GetTrivia query) w) with (trivia_handler query w).
  rewrite trivia_handler_cases.
  destruct (not_truthy _); [repeat split |].
  destruct (limit_out_of_range query); [repeat split |].
  rewrite trivia_pipeline_run.
  repeat apply conj; try reflexivity.
  intros a Ha. apply success_heap_frame, Ha.
Qed.

Lemma serve_all_store_kept (incoming : list Incoming) (w : World) :
  store_kept w (snd (serve_all incoming w)).
Proof.
  revert w. induction incoming as [| i incoming IH]; intros w.
  - apply store_kept_refl.
  - cbn [serve_all]. rewrite !bind_run. cbn [snd ret].
    eapply store_kept_trans; [apply serve_store_kept | apply IH].
Qed.

Lemma serve_all_length (incoming : list Incoming) (w : World) :
  length (fst (serve_all incoming w)) = length incoming.
Proof.
  revert w. induction incoming as [| i incoming IH]; intros w; [reflexivity |].
  cbn [serve_all]. rewrite !bind_run. cbn [fst ret length]. rewrite IH.
  reflexivity.
Qed.

Lemma serve_status_categories (i : Incoming) (w w' : World) :
  categories w' = categories w ->
  status (fst (serve i w')) = status (fst (serve i w)).
Proof.
  intros Hc. destruct i as [| | query | code message]; try reflexivity.
  change (serve (GetTrivia query) ?x) with (trivia_handler query x).
  rewrite !trivia_status, Hc. reflexivity.
Qed.

(** X9: however many requests and errors the application has answered, one
    answer for each, the data store is what it was at the start: the
    categories and the questions behind [trivia] are the same, so that
    [/v1/categories] gives the same answer, every request gets the same
    status, and the same questions pass the filter of a query as at the
    start. *)
Theorem lifetime_store_unchanged (incoming : list Incoming) (w : World) :
  is_Some (heap w !! trivia w) ->
  length (fst (serve_all incoming w)) = length incoming /\
  categories (snd (serve_all incoming w)) = categories w /\
  heap (snd (serve_all incoming w)) !! trivia (snd (serve_all incoming w)) =
    heap w !! trivia w /\
  fst (serve GetCategories (snd (serve_all incoming w))) =
    fst (serve GetCategories w) /\
  (forall i, status (fst (serve i (snd (serve_all incoming w)))) =
             status (fst (serve i w))) /\
  (forall query, matching_questions query (snd (serve_all incoming w)) =
                 matching_questions query w).
Proof.
  intros Htrivia.
  destruct (serve_all_store_kept incoming w) as (Hc & Ht & _ & Hh).
  assert (Hstore : heap (snd (serve_all incoming w))
                     !! trivia (snd (serve_all incoming w)) =
                   heap w !! trivia w).
  { rewrite Ht. apply Hh, Htrivia. }
  repeat apply conj.
  - apply serve_all_length.
  - exact Hc.
  - exact Hstore.
  - cbn [serve]. unfold categories_handler. rewrite !bind_run.
    cbn [fst snd ret get_categories]. rewrite Hc. reflexivity.
  - intros i. apply serve_status_categories, Hc.
  - intros query. unfold matching_questions. rewrite Hstore. reflexivity.
Qed.

Lemma lifetime_store_unchanged_witness :
  heap (snd (serve_all [GetTrivia (sample_query "1" None None); GetCategories;
                        Raised NOT_FOUND "NOT_FOUND";
                        GetTrivia (sample_query "2" (Some "hard") (Some "1"))]
                       sample_world))
    !! trivia (snd (serve_all
                      [GetTrivia (sample_query "1" None None); GetCategories;
                       Raised NOT_FOUND "NOT_FOUND";
                       GetTrivia (sample_query "2" (Some "hard") (Some "1"))]
                      sample_world)) =
  heap sample_world !! trivia sample_world.
Proof.
  assert (H : is_Some (heap sample_world !! trivia sample_world)).
  { eexists. vm_compute. reflexivity. }
  destruct (lifetime_store_unchanged
              [GetTrivia (sample_query "1" None None); GetCategories;
               Raised NOT_FOUND "NOT_FOUND";
               GetTrivia (sample_query "2" (Some "hard") (Some "1"))]
              sample_world H) as (_ & _ & Hs & _).
  exact Hs.
Defined.

Lemma filter_by_difficulty (cat : string) (l : list TriviaQuestion) :
  Forall (fun t => t_difficulty t = "easy" \/ t_difficulty t = "medium" \/
                   t_difficulty t = "hard") l ->
  Permutation (List.filter (matches cat "any") l)
              (List.filter (matches cat "easy") l ++
               List.filter (matches cat "medium") l ++
               List.filter (matches cat "hard") l).
Proof.
  induction 1 as [| t l Ht _ IH]; [reflexivity |].
  cbn [List.filter].
  assert (Hm : forall d, matches cat d t =
                 strict_eq (Num (t_category t)) (Number (VString cat)) &&
                 (String.eqb d "any" || String.eqb (t_difficulty t) d))
    by reflexivity.
  rewrite !Hm. clear Hm.
  destruct (strict_eq _ _); cbn [andb]; [| exact IH].
  destruct Ht as [-> | [-> | ->]];
    cbn [String.eqb Ascii.eqb Bool.eqb orb andb app].
  - constructor. exact IH.
  - apply Permutation_cons_app. exact IH.
  - rewrite app_assoc. apply Permutation_cons_app. rewrite <- app_assoc.
    exact IH.
Qed.

(** X10: when every question of the data store has difficulty [easy],
    [medium] or [hard], the questions that pass the filter of a request
    without difficulty (or with [any]) are those that pass with [easy], with
    [medium] and with [hard], taken together: each passes for exactly one of
    the three. *)
Theorem any_is_all_difficulties
    (cat : string) (lim : option string) (w : World) :
  Forall (fun t => t_difficulty t = "easy" \/ t_difficulty t = "medium" \/
                   t_difficulty t = "hard")
         (default [] (heap w !! trivia w)) ->
  Permutation
    (matching_questions {| category := cat; difficulty := None;
                           limit := lim |} w)
    (matching_questions {| category := cat; difficulty := Some "easy";
                           limit := lim |} w ++
     matching_questions {| category := cat; difficulty := Some "medium";
                           limit := lim |} w ++
     matching_questions {| category := cat; difficulty := Some "hard";
                           limit := lim |} w).
Proof.
  intros H. apply (filter_by_difficulty cat _ H).
Qed.

Lemma any_is_all_difficulties_witness :
  Permutation
    (matching_questions {| category := "1"; difficulty := None;
                           limit := None |} sample_world)
    (matching_questions {| category := "1"; difficulty := Some "easy";
                           limit := None |} sample_world ++
     matching_questions {| category := "1"; difficulty := Some "medium";
                           limit := None |} sample_world ++
     matching_questions {| category := "1"; difficulty := Some "hard";
                           limit := None |} sample_world).
Proof.
  apply (any_is_all_difficulties "1" None sample_world).
  apply (bool_decide_unpack _). vm_compute. exact I.
Defined.

(** X11: everything the application answers, but the welcome text of [/],
    is JSON: the body is made by [JSON.stringify] and the only header set is
    [Content-Type: application/json], for the two [/v1] routes and for every
    error alike. *)
Theorem answers_are_json (i : Incoming) (w : World) :
  i <> GetRoot ->
  headers (fst (serve i w)) = [("Content-Type", "application/json")] /\
  exists v, body (fst (serve i w)) = JSON_stringify v.
Proof.
  intros Hi. destruct i as [| | query | code message].
  - contradiction.
  - split; [reflexivity | eexists; reflexivity].
  - change (serve (GetTrivia query) w) with (trivia_handler query w).
    rewrite trivia_handler_cases.
    destruct (not_truthy _); [split; [reflexivity | eexists; reflexivity] |].
    destruct (limit_out_of_range query);
      [split; [reflexivity | eexists; reflexivity] |].
    rewrite trivia_pipeline_run. split; [reflexivity | eexists; reflexivity].
  - split; [reflexivity | eexists; reflexivity].
Qed.

Lemma answers_are_json_witness :
  headers (fst (serve (GetTrivia (sample_query "1" None None)) sample_world)) =
    [("Content-Type", "application/json")] /\
  exists v,
    body (fst (serve (GetTrivia (sample_query "1" None None)) sample_world)) =
      JSON_stringify v.
Proof.
  apply (answers_are_json (GetTrivia (sample_query "1" None None))
           sample_world).
  discriminate.
Defined.

(** X12: when the handler of [/v1/trivia] refuses a request, its answer is
    the very response that the [onError] hook builds for the code
    [NOT_FOUND] or [VALIDATION] with the same message: the statuses written
    in the handler agree with the table of the hook. *)
Theorem trivia_refusals_as_hook (query : Query) (w : World) :
  status (fst (trivia_handler query w)) <> 200 ->
  fst (trivia_handler query w) =
    onError NOT_FOUND "Invalid value for parameter 'category'." \/
  fst (trivia_handler query w) =
    onError VALIDATION
      "Invalid value for parameter 'limit'. Must be between 1 and 50.".
Proof.
  rewrite trivia_status, trivia_handler_cases.
  destruct (not_truthy _); [left; reflexivity |].
  destruct (limit_out_of_range query); [right; reflexivity |].
  intros H. destruct H. reflexivity.
Qed.

Lemma trivia_refusals_as_hook_witness :
  fst (trivia_handler (sample_query "3" None None) sample_world) =
    onError NOT_FOUND "Invalid value for parameter 'category'." \/
  fst (trivia_handler (sample_query "3" None None) sample_world) =
    onError VALIDATION
      "Invalid value for parameter 'limit'. Must be between 1 and 50.".
Proof.
  apply (trivia_refusals_as_hook (sample_query "3" None None) sample_world).
  vm_compute. discriminate.
Defined.

(** X13: two states of the process that hold the same data store give, to
    the same [/v1/trivia] request whose limit is at least the number of
    questions that pass the filter, answers with the same status, and when
    it is 200 the two arrays are rearrangements of each other, whatever the
    outcomes of [Math.random] in the two states are. *)
Theorem trivia_same_content_across_states
    (query : Query) (w1 w2 : World) (n : Z) :
  categories w1 = categories w2 ->
  heap w1 !! trivia w1 = heap w2 !! trivia w2 ->
  Number (limit_of query) = Num n ->
  Z.of_nat (length (matching_questions query w1)) <= n ->
  status (fst (trivia_handler query w1)) =
    status (fst (trivia_handler query w2)) /\
  (status (fst (trivia_handler query w1)) = 200 ->
   exists ts1 ts2,
     body (fst (trivia_handler query w1)) =
       JSON_stringify (JArray (map TriviaQuestion_json ts1)) /\
     body (fst (trivia_handler query w2)) =
       JSON_stringify (JArray (map TriviaQuestion_json ts2)) /\
     Permutation ts1 ts2).
Proof.
  intros Hc Hh Hn Hall.
  assert (Hm : matching_questions query w1 = matching_questions query w2).
  { unfold matching_questions. rewrite Hh. reflexivity. }
  assert (Hs : status (fst (trivia_handler query w1)) =
               status (fst (trivia_handler query w2))).
  { rewrite !trivia_status, Hc. reflexivity. }
  split; [exact Hs |]. intros H1.
  assert (H2 : status (fst (trivia_handler query w2)) = 200) by congruence.
  destruct (trivia_handler_200 _ _ H1) as [[c1 Hc1] Hl].
  destruct (trivia_handler_200 _ _ H2) as [[c2 Hc2] _].
  rewrite (trivia_handler_success _ _ _ Hc1 Hl).
  rewrite (trivia_handler_success _ _ _ Hc2 Hl).
  eexists _, _. split; [reflexivity | split; [reflexivity |]].
  unfold limited_questions. rewrite Hn.
  rewrite !slice_final_all, !firstn_all.
  - rewrite !shuffled_perm, Hm. reflexivity.
  - rewrite (Permutation_length (shuffled_perm query w2)), <- Hm. exact Hall.
  - rewrite (Permutation_length (shuffled_perm query w1)). exact Hall.
Qed.

Lemma trivia_same_content_across_states_witness :
  status (fst (trivia_handler (sample_query "1" None None) sample_world)) =
    status (fst (trivia_handler (sample_query "1" None None)
                   (set_drawn 1 sample_world))) /\
  (status (fst (trivia_handler (sample_query "1" None None) sample_world))
     = 200 ->
   exists ts1 ts2,
     body (fst (trivia_handler (sample_query "1" None None) sample_world)) =
       JSON_stringify (JArray (map TriviaQuestion_json ts1)) /\
     body (fst (trivia_handler (sample_query "1" None None)
                  (set_drawn 1 sample_world))) =
       JSON_stringify (JArray (map TriviaQuestion_json ts2)) /\
     Permutation ts1 ts2).
Proof.
  apply (trivia_same_content_across_states (sample_query "1" None None)
           sample_world (set_drawn 1 sample_world) 10).
  - reflexivity.
  - reflexivity.
  - reflexivity.
  - vm_compute. discriminate.
Defined.

Example shuffle_orders_differ :
  map t_id (shuffled_questions (sample_query "1" None None) sample_world) <>
  map t_id (shuffled_questions (sample_query "1" None None)
              (set_drawn 1 sample_world)).
Proof. vm_compute. discriminate. Qed.
